(** * pycraft: the node model, the scoped builder and the code generator

    A shallow embedding of [pycraft] (src/pycraft):
    - [core/base.py] and [nodes/*.py]: the node dataclasses, as the
      inductive types [expr] and [node];
    - [core/builder.py] and [builder/*.py]: the [Builder] with its stack of
      open nodes and the context managers that push and pop it;
    - [generator/base.py]: [CodeGenerator], with its mutable
      [indent_level] threaded as explicit state.

    Python objects on the builder's stack are mutated in place; a node on
    the stack is referenced by nothing but the stack (and its own context
    manager, which never reads it again), so it is modelled as a value that
    the operations replace. *)

From Stdlib Require Import String Ascii List ZArith Lia Bool.
Import ListNotations.
Open Scope list_scope.
Open Scope string_scope.
Set Warnings "-register-all".

(** ** Node model *)

(** Expression nodes used in statement fields ([nodes/literals.py],
    [nodes/expressions.py]); only the variants the statements below need. *)
Inductive expr : Type :=
| Name (id : string)
| Attribute (value : option expr) (attr : string)
| Call (func : option expr) (args : list expr).

(** [Alias] of an import, [Arg] of a parameter list, [Arguments], and
    [WithItem]. *)
Record alias := mk_alias { alias_name : string; asname : option string }.
Record arg := mk_arg { arg_name : string; annotation : option expr }.
Record arguments := mk_arguments { args_args : list arg; kwonlyargs : list arg }.
Record withitem := mk_withitem { context_expr : option expr; optional_vars : option expr }.

(** Statement nodes.  Fields typed [T | None] in the source are [option];
    lists are lists.  [Finally] and [Module_] are node classes of the
    package for which the generator has no rule; [FinallyBuilder] is the
    [FinallyBuilder] context manager, which pushes itself on the builder's
    stack (it is not a [BaseNode], but it has a [body] property, so it
    passes the runtime [BodyNode] check). *)
Inductive node : Type :=
| Import (names : list alias)
| ClassDef (name : string) (bases : list expr) (decorators : list expr) (body : list node)
| FunctionDef (name : string) (fargs : option arguments) (returns : option expr)
    (decorator_list : list expr) (type_params : list expr) (body : list node)
| AsyncFunctionDef (name : string) (fargs : option arguments) (returns : option expr)
    (decorator_list : list expr) (type_params : list expr) (body : list node)
| If (test : option expr) (body : list node) (or_else : list node)
| Elif (test : option expr) (body : list node)
| Else (body : list node)
| For (target : option expr) (iter : option expr) (body : list node) (or_else : list node)
| AsyncFor (target : option expr) (iter : option expr) (body : list node) (or_else : list node)
| While (test : option expr) (body : list node) (or_else : list node)
| With (items : list withitem) (body : list node)
| Try (body : list node) (handlers : list node) (or_else : list node) (finalbody : list node)
| ExceptHandler (type : option expr) (hname : option string) (body : list node)
| Match (subject : option expr) (cases : list node)
| MatchCase (pattern : option expr) (guard : option expr) (body : list node)
| Expr (value : option expr)
| Return (value : option expr)
| Pass
| Break
| Continue
| Comment (text : string)
| Finally (body : list node)
| Module_ (body : list node)
| FinallyBuilder (temp_body : list node).

(** [isinstance(n, BodyNode)] with [n.body]: the runtime-checkable protocol
    only asks for a [body] attribute. *)
Definition body_of (n : node) : option (list node) :=
  match n with
  | ClassDef _ _ _ b | FunctionDef _ _ _ _ _ b | AsyncFunctionDef _ _ _ _ _ b
  | If _ b _ | Elif _ b | Else b | For _ _ b _ | AsyncFor _ _ b _
  | While _ b _ | With _ b | Try b _ _ _ | ExceptHandler _ _ b
  | MatchCase _ _ b | Finally b | Module_ b | FinallyBuilder b => Some b
  | Import _ | Match _ _ | Expr _ | Return _ | Pass | Break | Continue
  | Comment _ => None
  end.

(** The node with its [body] list replaced (in place in the source). *)
Definition with_body (n : node) (b : list node) : node :=
  match n with
  | ClassDef nm bs ds _ => ClassDef nm bs ds b
  | FunctionDef nm a r ds tps _ => FunctionDef nm a r ds tps b
  | AsyncFunctionDef nm a r ds tps _ => AsyncFunctionDef nm a r ds tps b
  | If t _ o => If t b o
  | Elif t _ => Elif t b
  | Else _ => Else b
  | For t i _ o => For t i b o
  | AsyncFor t i _ o => AsyncFor t i b o
  | While t _ o => While t b o
  | With its _ => With its b
  | Try _ h o f => Try b h o f
  | ExceptHandler ty nm _ => ExceptHandler ty nm b
  | MatchCase p g _ => MatchCase p g b
  | Finally _ => Finally b
  | Module_ _ => Module_ b
  | FinallyBuilder _ => FinallyBuilder b
  | n => n
  end.

(** [isinstance(x, BaseNode)]: every node class, not the context manager. *)
Definition is_basenode (n : node) : bool :=
  match n with FinallyBuilder _ => false | _ => true end.

(** ** Builder ([core/builder.py]) *)

(** [Builder] state.  [stack] lists the open nodes innermost first: the
    head is the source's [self._stack[-1]]. *)
Record builder := mk_builder { root_nodes : list node; stack : list node }.

Definition empty_builder : builder := mk_builder [] [].

(** [self._get_current_body().append(x)]: the body of the top of the stack
    if it has one, otherwise [root_nodes]. *)
Definition append_current (b : builder) (x : node) : builder :=
  match stack b with
  | parent :: rest =>
      match body_of parent with
      | Some bd => mk_builder (root_nodes b) (with_body parent (app bd [x]) :: rest)
      | None => mk_builder (app (root_nodes b) [x]) (stack b)
      end
  | [] => mk_builder (app (root_nodes b) [x]) []
  end.

(** [Builder.add_node]. *)
Definition add_node (b : builder) (x : node) : builder := append_current b x.

(** [Builder._push_node]. *)
Definition push_node (b : builder) (x : node) : builder :=
  mk_builder (root_nodes b) (x :: stack b).

(** [if isinstance(node, BodyNode) and not node.body: node.body.append(Pass())]. *)
Definition fill_pass (n : node) : node :=
  match body_of n with
  | Some [] => with_body n [Pass]
  | _ => n
  end.

(** [Builder._pop_node]; [None] is the [IndexError] of popping an empty
    list. *)
Definition pop_node (b : builder) : option builder :=
  match stack b with
  | [] => None
  | n :: rest => Some (append_current (mk_builder (root_nodes b) rest) (fill_pass n))
  end.

(** [Builder.__exit__] / [_ensure_pass_in_empty_bodies]: top-level nodes
    only. *)
Definition builder_exit (b : builder) : builder :=
  mk_builder (map fill_pass (root_nodes b)) (stack b).


(** ** Context managers ([builder/control_flow.py], [builder/functions.py]) *)

(** The convenience functions [if_], [elif_], ... with the arguments the
    node constructors read ([**kwargs] are ignored by all of them). *)
Inductive scope : Type :=
| if_ (test : expr)
| elif_ (test : expr)
| else_
| match_ (subject : expr)
| case_ (pattern : expr) (guard : option expr)
| for_ (target : expr) (iter : expr)
| async_for (target : expr) (iter : expr)
| while_ (test : expr)
| try_
| except_ (exc_type : option expr) (name : option string)
| finally_
| with_ (ctx : expr) (vars : option expr)
| func (name : string) (fargs : option arguments) (returns : option string)
    (decorators_list : list expr) (type_params : list expr)
| async_func (name : string) (fargs : option arguments) (returns : option string)
    (type_params : list expr)
| class_ (name : string) (bases : list expr).

(** [FunctionDefBuilder.__init__]: [returns] given as a non-empty string
    becomes [Name(id=returns)]. *)
Definition returns_node (returns : option string) : option expr :=
  match returns with
  | Some r => if String.eqb r "" then None else Some (Name r)
  | None => None
  end.

Definition default_arguments (a : option arguments) : arguments :=
  match a with Some a => a | None => mk_arguments [] [] end.

(** The node each builder's [__init__] creates (for [finally_], the
    [FinallyBuilder] itself, which its [__enter__] pushes). *)
Definition open_node (k : scope) : node :=
  match k with
  | if_ t => If (Some t) [] []
  | elif_ t => Elif (Some t) []
  | else_ => Else []
  | match_ s => Match (Some s) []
  | case_ p g => MatchCase (Some p) g []
  | for_ t i => For (Some t) (Some i) [] []
  | async_for t i => AsyncFor (Some t) (Some i) [] []
  | while_ t => While (Some t) [] []
  | try_ => Try [] [] [] []
  | except_ ty nm => ExceptHandler ty nm []
  | finally_ => FinallyBuilder []
  | with_ c v => With [mk_withitem (Some c) v] []
  | func nm a r ds tps =>
      FunctionDef nm (Some (default_arguments a)) (returns_node r) ds tps []
  | async_func nm a r tps =>
      AsyncFunctionDef nm (Some (default_arguments a)) (returns_node r) [] tps []
  | class_ nm bs => ClassDef nm bs [] []
  end.

(** [isinstance(parent, (If, While, Try))]. *)
Definition is_if_while_try (n : node) : bool :=
  match n with If _ _ _ | While _ _ _ | Try _ _ _ _ => true | _ => false end.

(** [parent.or_else.extend(xs)] on an [If], [While] or [Try]. *)
Definition extend_or_else (parent : node) (xs : list node) : node :=
  match parent with
  | If t b o => If t b (app o xs)
  | While t b o => While t b (app o xs)
  | Try b h o f => Try b h (app o xs) f
  | n => n
  end.

(** [ElifBuilder.__exit__]. *)
Definition ElifBuilder_exit (b : builder) : option builder :=
  match stack b with
  | [] => None
  | n0 :: rest =>
      let n := fill_pass n0 in
      match rest with
      | parent :: rest' =>
          if is_if_while_try parent
          then Some (mk_builder (root_nodes b) (extend_or_else parent [n] :: rest'))
          else Some (append_current (mk_builder (root_nodes b) rest) n)
      | [] => Some (mk_builder (app (root_nodes b) [n]) [])
      end
  end.

(** [ElseBuilder.__exit__]: the popped node's body is spliced into the
    parent's [or_else]. *)
Definition ElseBuilder_exit (b : builder) : option builder :=
  match stack b with
  | [] => None
  | n0 :: rest =>
      let n := fill_pass n0 in
      match rest with
      | parent :: rest' =>
          match is_if_while_try parent, body_of n with
          | true, Some bd =>
              Some (mk_builder (root_nodes b) (extend_or_else parent bd :: rest'))
          | _, _ => Some (append_current (mk_builder (root_nodes b) rest) n)
          end
      | [] => Some (mk_builder (app (root_nodes b) [n]) [])
      end
  end.

(** [CaseBuilder.__exit__]: no branch when the parent is not a [Match]. *)
Definition CaseBuilder_exit (b : builder) : option builder :=
  match stack b with
  | [] => None
  | n0 :: rest =>
      let n := fill_pass n0 in
      match rest with
      | Match s cs :: rest' => Some (mk_builder (root_nodes b) (Match s (app cs [n]) :: rest'))
      | _ => Some (mk_builder (root_nodes b) rest)
      end
  end.

(** [ExceptBuilder.__exit__]: the fallback append only when the stack is
    not empty. *)
Definition ExceptBuilder_exit (b : builder) : option builder :=
  match stack b with
  | [] => None
  | n0 :: rest =>
      let n := fill_pass n0 in
      match rest with
      | Try bd h o f :: rest' =>
          Some (mk_builder (root_nodes b) (Try bd (app h [n]) o f :: rest'))
      | _ :: _ => Some (append_current (mk_builder (root_nodes b) rest) n)
      | [] => Some (mk_builder (root_nodes b) [])
      end
  end.

(** [FinallyBuilder.__exit__].  Under the [with] nesting the popped entry
    is the [FinallyBuilder] itself, and [self.temp_body] is its body. *)
Definition FinallyBuilder_exit (b : builder) : option builder :=
  match stack b with
  | [] => None
  | self0 :: rest =>
      let temp_body := match body_of (fill_pass self0) with Some tb => tb | None => [] end in
      match rest with
      | Try bd h o f :: rest' =>
          Some (mk_builder (root_nodes b) (Try bd h o (app f temp_body) :: rest'))
      | _ => Some (mk_builder (root_nodes b) rest)
      end
  end.

(** The [__exit__] of each context manager; the others call
    [Builder._pop_node]. *)
Definition exit_scope (k : scope) (b : builder) : option builder :=
  match k with
  | elif_ _ => ElifBuilder_exit b
  | else_ => ElseBuilder_exit b
  | case_ _ _ => CaseBuilder_exit b
  | except_ _ _ => ExceptBuilder_exit b
  | finally_ => FinallyBuilder_exit b
  | _ => pop_node b
  end.

(** Every [__enter__] pushes the node (or itself, for [finally_]). *)
Definition enter_scope (k : scope) (b : builder) : builder := push_node b (open_node k).

(** A client program of the builder: [builder.add_node(n)] statements and
    [with k: ...] blocks. *)
Inductive script : Type :=
| SAdd (n : node)
| SWith (k : scope) (inner : list script).

Fixpoint run_script (s : script) (b : builder) : option builder :=
  match s with
  | SAdd n => Some (add_node b n)
  | SWith k inner =>
      let fix run_list (l : list script) (b : builder) : option builder :=
        match l with
        | [] => Some b
        | x :: r => match run_script x b with Some b' => run_list r b' | None => None end
        end in
      match run_list inner (enter_scope k b) with
      | Some b' => exit_scope k b'
      | None => None
      end
  end.

Fixpoint run_scripts (l : list script) (b : builder) : option builder :=
  match l with
  | [] => Some b
  | x :: r => match run_script x b with Some b' => run_scripts r b' | None => None end
  end.

(** A body statement list as the builder leaves it: a lone [Pass] when
    nothing was added. *)
Definition pass_fill (xs : list node) : list node :=
  match xs with [] => [Pass] | _ => xs end.

(** ** Code generator ([generator/base.py]) *)

Fixpoint repeat_str (s : string) (n : nat) : string :=
  match n with O => "" | S k => s ++ repeat_str s k end.

(** [sep.join(l)]. *)
Fixpoint join_with (sep : string) (l : list string) : string :=
  match l with
  | [] => ""
  | [x] => x
  | x :: r => x ++ sep ++ join_with sep r
  end.

Definition nl : string := String (ascii_of_nat 10) "".
Definition tab : string := String (ascii_of_nat 9) "".

(** ["\n".join(lines)]. *)
Definition join_nl (l : list string) : string := join_with nl l.

(** Truthiness of a [str | None] field. *)
Definition truthy_str (o : option string) : bool :=
  match o with Some s => negb (String.eqb s "") | None => false end.

(** [CodeGenerator._generate_expr], for the modelled expression nodes. *)
Fixpoint gen_expr (e : expr) : string :=
  match e with
  | Name id => id
  | Attribute v attr =>
      match v with Some v => gen_expr v | None => "" end ++ "." ++ attr
  | Call f args =>
      match f with Some f => gen_expr f | None => "" end
        ++ "(" ++ join_with ", " (map gen_expr args) ++ ")"
  end.

(** [CodeGenerator._safe_generate_expr]. *)
Definition safe_expr (e : option expr) : string :=
  match e with Some e => gen_expr e | None => "" end.

(** The [Alias] and [Arg] cases of [_generate_expr]. *)
Definition gen_alias (a : alias) : string :=
  match asname a with
  | Some s => if truthy_str (Some s) then alias_name a ++ " as " ++ s else alias_name a
  | None => alias_name a
  end.

Definition gen_arg (a : arg) : string :=
  match annotation a with
  | Some an => arg_name a ++ ": " ++ gen_expr an
  | None => arg_name a
  end.

(** [CodeGenerator._generate_arguments]. *)
Definition gen_arguments (a : arguments) : string :=
  let parts := map gen_arg (args_args a) in
  let parts :=
    match kwonlyargs a with
    | [] => parts
    | kws => app (match parts with [] => ["*"] | _ => parts end) (map gen_arg kws)
    end in
  join_with ", " parts.

(** [CodeGenerator._generate_with_item]. *)
Definition gen_withitem (w : withitem) : string :=
  match optional_vars w with
  | Some v => safe_expr (context_expr w) ++ " as " ++ gen_expr v
  | None => safe_expr (context_expr w)
  end.

(** The header line of a [FunctionDef] / [AsyncFunctionDef]; the type
    parameters (the builder's [type_params] keyword, [[]] by default) are
    printed in brackets after the name when there are any. *)
Definition def_line (indent prefix name : string) (tps : list expr) (a : option arguments)
    (returns : option expr) : string :=
  let args_str := match a with Some a => gen_arguments a | None => "" end in
  let returns_str := match returns with Some r => " -> " ++ gen_expr r | None => "" end in
  let type_params_str :=
    match tps with
    | [] => ""
    | _ => "[" ++ join_with ", " (map gen_expr tps) ++ "]"
    end in
  indent ++ prefix ++ " " ++ name ++ type_params_str ++ "(" ++ args_str ++ ")"
    ++ returns_str ++ ":".

(** [_generate_expr] of an [ExceptHandler]'s type and name. *)
Definition except_line (indent : string) (ty : option expr) (nm : option string) : string :=
  let name_s := match nm with Some s => s | None => "" end in
  let type_str :=
    match ty with
    | Some t => if truthy_str nm then gen_expr t ++ " as " ++ name_s else gen_expr t
    | None => if truthy_str nm then " " ++ name_s else ""
    end in
  indent ++ "except" ++ (if String.eqb type_str "" then "" else " " ++ type_str) ++ ":".

(** The generator's instance state: [self.indent_char], [self.indent_level]. *)
Record gen := mk_gen { indent_char : string; indent_level : Z }.

(** [CodeGenerator.__init__]; the default unit is one tab. *)
Definition CodeGenerator_init (indent_char : string) : gen := mk_gen indent_char 0.

(** [self.indent_level += 1] and [-= 1]. *)
Definition incr (g : gen) : gen := mk_gen (indent_char g) (indent_level g + 1).
Definition decr (g : gen) : gen := mk_gen (indent_char g) (indent_level g - 1).

(** [self.indent_char * self.indent_level] (a negative count gives ""). *)
Definition indent_str (g : gen) : string :=
  repeat_str (indent_char g) (Z.to_nat (indent_level g)).

(** The loop of [_generate_nodes] before the join: [BaseNode]s only, empty
    codes skipped. *)
Fixpoint gen_nodes_with (f : node -> gen -> string * gen) (l : list node) (g : gen)
    : list string * gen :=
  match l with
  | [] => ([], g)
  | x :: r =>
      if is_basenode x then
        let '(c, g1) := f x g in
        let '(cs, g2) := gen_nodes_with f r g1 in
        (if String.eqb c "" then cs else c :: cs, g2)
      else gen_nodes_with f r g
  end.

(** [for x in l: lines.append(self._generate_node(x))]. *)
Fixpoint map_st (f : node -> gen -> string * gen) (l : list node) (g : gen)
    : list string * gen :=
  match l with
  | [] => ([], g)
  | x :: r =>
      let '(c, g1) := f x g in
      let '(cs, g2) := map_st f r g1 in
      (c :: cs, g2)
  end.
(** [CodeGenerator._generate_node]: the text of one node and the generator
    state after it.  [indent] is read once on entry, as in the source. *)
Fixpoint gen_node (n : node) (g : gen) {struct n} : string * gen :=
  let indent := indent_str g in
  match n with
  | Import names => (indent ++ "import " ++ join_with ", " (map gen_alias names), g)
  | ClassDef name bases decos body =>
      let dlines := map (fun d => indent ++ "@" ++ gen_expr d) decos in
      let bases_str :=
        match bases with
        | [] => ""
        | _ => "(" ++ join_with ", " (map gen_expr bases) ++ ")"
        end in
      let '(bcs, g1) := gen_nodes_with gen_node body (incr g) in
      (join_nl (app dlines [indent ++ "class " ++ name ++ bases_str ++ ":"; join_nl bcs]),
       decr g1)
  | FunctionDef name a r decos tps body =>
      let dlines := map (fun d => indent ++ "@" ++ gen_expr d) decos in
      let '(bcs, g1) := gen_nodes_with gen_node body (incr g) in
      (join_nl (app dlines [def_line indent "def" name tps a r; join_nl bcs]), decr g1)
  | AsyncFunctionDef name a r decos tps body =>
      let dlines := map (fun d => indent ++ "@" ++ gen_expr d) decos in
      let '(bcs, g1) := gen_nodes_with gen_node body (incr g) in
      (join_nl (app dlines [def_line indent "async def" name tps a r; join_nl bcs]), decr g1)
  | If t body o =>
      let '(bcs, g1) := gen_nodes_with gen_node body (incr g) in
      let '(ocs, g2) := map_st gen_node o (decr g1) in
      (join_nl (app [indent ++ "if " ++ safe_expr t ++ ":"; join_nl bcs] ocs), g2)
  | Elif t body =>
      let '(bcs, g1) := gen_nodes_with gen_node body (incr g) in
      (join_nl [indent ++ "elif " ++ safe_expr t ++ ":"; join_nl bcs], decr g1)
  | Else body =>
      let '(bcs, g1) := gen_nodes_with gen_node body (incr g) in
      (join_nl [indent ++ "else:"; join_nl bcs], decr g1)
  | For t i body o =>
      let '(bcs, g1) := gen_nodes_with gen_node body (incr g) in
      let lines := [indent ++ "for " ++ safe_expr t ++ " in " ++ safe_expr i ++ ":";
                    join_nl bcs] in
      match o with
      | [] => (join_nl lines, decr g1)
      | _ =>
          let '(ecs, g2) := gen_nodes_with gen_node o (incr (decr g1)) in
          (join_nl (app lines [indent ++ "else:"; join_nl ecs]), decr g2)
      end
  | AsyncFor t i body o =>
      let '(bcs, g1) := gen_nodes_with gen_node body (incr g) in
      let lines := [indent ++ "async for " ++ safe_expr t ++ " in " ++ safe_expr i ++ ":";
                    join_nl bcs] in
      match o with
      | [] => (join_nl lines, decr g1)
      | _ =>
          let '(ecs, g2) := gen_nodes_with gen_node o (incr (decr g1)) in
          (join_nl (app lines [indent ++ "else:"; join_nl ecs]), decr g2)
      end
  | While t body o =>
      let '(bcs, g1) := gen_nodes_with gen_node body (incr g) in
      let lines := [indent ++ "while " ++ safe_expr t ++ ":"; join_nl bcs] in
      match o with
      | [] => (join_nl lines, decr g1)
      | _ =>
          let '(ecs, g2) := gen_nodes_with gen_node o (incr (decr g1)) in
          (join_nl (app lines [indent ++ "else:"; join_nl ecs]), decr g2)
      end
  | With items body =>
      let '(bcs, g1) := gen_nodes_with gen_node body (incr g) in
      (join_nl [indent ++ "with " ++ join_with ", " (map gen_withitem items) ++ ":";
                join_nl bcs], decr g1)
  | Try body hs o f =>
      let '(bcs, g1) := gen_nodes_with gen_node body (incr g) in
      let '(hcs, g2) := map_st gen_node hs (decr g1) in
      let lines := app [indent ++ "try:"; join_nl bcs] hcs in
      let '(lines, g3) :=
        match o with
        | [] => (lines, g2)
        | _ =>
            let '(ecs, g') := gen_nodes_with gen_node o (incr g2) in
            (app lines [indent ++ "else:"; join_nl ecs], decr g')
        end in
      let '(lines, g4) :=
        match f with
        | [] => (lines, g3)
        | _ =>
            let '(fcs, g') := gen_nodes_with gen_node f (incr g3) in
            (app lines [indent ++ "finally:"; join_nl fcs], decr g')
        end in
      (join_nl lines, g4)
  | Match s cases =>
      let '(ccs, g1) := map_st gen_node cases (incr g) in
      (join_nl ((indent ++ "match " ++ safe_expr s ++ ":") :: ccs), decr g1)
  | MatchCase p gd body =>
      let guard_str := match gd with Some e => " if " ++ gen_expr e | None => "" end in
      let '(bcs, g1) := gen_nodes_with gen_node body (incr g) in
      (join_nl [indent ++ "case " ++ safe_expr p ++ guard_str ++ ":"; join_nl bcs], decr g1)
  | Expr v => (indent ++ safe_expr v, g)
  | Return v =>
      match v with
      | Some e => (indent ++ "return " ++ gen_expr e, g)
      | None => (indent ++ "return", g)
      end
  | Pass => (indent ++ "pass", g)
  | Break => (indent ++ "break", g)
  | Continue => (indent ++ "continue", g)
  | Comment t => (if String.eqb t "" then "" else indent ++ "# " ++ t, g)
  | ExceptHandler ty nm body =>
      let '(bcs, g1) := gen_nodes_with gen_node body (incr g) in
      (join_nl [except_line indent ty nm; join_nl bcs], decr g1)
  | Finally _ => (indent ++ "# Unknown node: Finally", g)
  | Module_ _ => (indent ++ "# Unknown node: Module", g)
  | FinallyBuilder _ => (indent ++ "# Unknown node: FinallyBuilder", g)
  end.

(** [CodeGenerator._generate_nodes]. *)
Definition gen_nodes (l : list node) (g : gen) : string * gen :=
  let '(cs, g1) := gen_nodes_with gen_node l g in (join_nl cs, g1).

(** The [mode] argument of [generate]. *)
Inductive mode : Type := console | file.

(** Effects of [generate]: [print(code)] and [output_path.write_text(code)]
    for [Path(path) / file_name]. *)
Inductive effect : Type :=
| Print (text : string)
| WriteText (dir : string) (file_name : string) (text : string).

(** What [generate] returns or raises. *)
Inductive outcome : Type :=
| Returned (code : string)
| ValueError (msg : string).

(** [CodeGenerator.generate]: the result, the generator state afterwards,
    and the effects in order. *)
Definition generate (g : gen) (b : builder) (m : mode) (file_name : option string)
    (path : string) : outcome * gen * list effect :=
  let '(code, g1) := gen_nodes (root_nodes b) g in
  match m with
  | console => (Returned code, g1, [Print code])
  | file =>
      if truthy_str file_name then
        match file_name with
        | Some fn => (Returned code, g1, [WriteText path fn code])
        | None => (ValueError "file_name is required when mode='file'", g1, [])
        end
      else (ValueError "file_name is required when mode='file'", g1, [])
  end.

(** ** The rendering structure the spec describes *)

(** A rule-less node kind and the class name the generator prints for it
    (the final [else] branch of [_generate_node]). *)
Definition unknown_kind_name (n : node) : option string :=
  match n with
  | Finally _ => Some "Finally"
  | Module_ _ => Some "Module"
  | FinallyBuilder _ => Some "FinallyBuilder"
  | _ => None
  end.

(** The lines of a node's text, each with its depth relative to the node,
    as the spec's rendering contract describes them: header line(s) at the
    node's own depth, the body one level deeper, continuation clauses
    ([elif]/[else] chain, handlers, [else:]/[finally:] clauses) back at the
    node's depth, a match's cases one level deeper.  The text of a line is
    the generator's text without indentation. *)
Definition shift (k : nat) (l : list (nat * string)) : list (nat * string) :=
  map (fun p => (k + fst p, snd p)) l.

Fixpoint spec_layout (n : node) : list (nat * string) :=
  match n with
  | Import names => [(0, "import " ++ join_with ", " (map gen_alias names))]
  | ClassDef name bases decos body =>
      let bases_str :=
        match bases with
        | [] => ""
        | _ => "(" ++ join_with ", " (map gen_expr bases) ++ ")"
        end in
      app (map (fun d => (0, "@" ++ gen_expr d)) decos)
        ((0, "class " ++ name ++ bases_str ++ ":") :: shift 1 (concat (map spec_layout body)))
  | FunctionDef name a r decos tps body =>
      app (map (fun d => (0, "@" ++ gen_expr d)) decos)
        ((0, def_line "" "def" name tps a r) :: shift 1 (concat (map spec_layout body)))
  | AsyncFunctionDef name a r decos tps body =>
      app (map (fun d => (0, "@" ++ gen_expr d)) decos)
        ((0, def_line "" "async def" name tps a r) :: shift 1 (concat (map spec_layout body)))
  | If t body o =>
      (0, "if " ++ safe_expr t ++ ":")
        :: app (shift 1 (concat (map spec_layout body))) (concat (map spec_layout o))
  | Elif t body => (0, "elif " ++ safe_expr t ++ ":") :: shift 1 (concat (map spec_layout body))
  | Else body => (0, "else:") :: shift 1 (concat (map spec_layout body))
  | For t i body o =>
      (0, "for " ++ safe_expr t ++ " in " ++ safe_expr i ++ ":")
        :: app (shift 1 (concat (map spec_layout body)))
             (match o with
              | [] => []
              | _ => (0, "else:") :: shift 1 (concat (map spec_layout o))
              end)
  | AsyncFor t i body o =>
      (0, "async for " ++ safe_expr t ++ " in " ++ safe_expr i ++ ":")
        :: app (shift 1 (concat (map spec_layout body)))
             (match o with
              | [] => []
              | _ => (0, "else:") :: shift 1 (concat (map spec_layout o))
              end)
  | While t body o =>
      (0, "while " ++ safe_expr t ++ ":")
        :: app (shift 1 (concat (map spec_layout body)))
             (match o with
              | [] => []
              | _ => (0, "else:") :: shift 1 (concat (map spec_layout o))
              end)
  | With items body =>
      (0, "with " ++ join_with ", " (map gen_withitem items) ++ ":")
        :: shift 1 (concat (map spec_layout body))
  | Try body hs o f =>
      (0, "try:")
        :: app (shift 1 (concat (map spec_layout body)))
             (app (concat (map spec_layout hs))
                (app (match o with
                      | [] => []
                      | _ => (0, "else:") :: shift 1 (concat (map spec_layout o))
                      end)
                   (match f with
                    | [] => []
                    | _ => (0, "finally:") :: shift 1 (concat (map spec_layout f))
                    end)))
  | Match s cases =>
      (0, "match " ++ safe_expr s ++ ":") :: shift 1 (concat (map spec_layout cases))
  | MatchCase p gd body =>
      (0, "case " ++ safe_expr p
            ++ match gd with Some e => " if " ++ gen_expr e | None => "" end ++ ":")
        :: shift 1 (concat (map spec_layout body))
  | Expr v => [(0, safe_expr v)]
  | Return v =>
      match v with
      | Some e => [(0, "return " ++ gen_expr e)]
      | None => [(0, "return")]
      end
  | Pass => [(0, "pass")]
  | Break => [(0, "break")]
  | Continue => [(0, "continue")]
  | Comment t => [(0, "# " ++ t)]
  | ExceptHandler ty nm body =>
      (0, except_line "" ty nm) :: shift 1 (concat (map spec_layout body))
  | Finally _ => [(0, "# Unknown node: Finally")]
  | Module_ _ => [(0, "# Unknown node: Module")]
  | FinallyBuilder _ => [(0, "# Unknown node: FinallyBuilder")]
  end.

(** Each line prefixed by the indentation unit repeated [d] plus its
    relative depth times. *)
Definition lines (u : string) (d : nat) (l : list (nat * string)) : list string :=
  map (fun p => repeat_str u (d + fst p) ++ snd p) l.

(** The lines a statement list renders as, [d] levels deep. *)
Definition block_lines (u : string) (d : nat) (l : list node) : list string :=
  lines u d (concat (map spec_layout l)).

(** The header line(s) [_generate_node] prints, without indentation, for
    the node a scope closed by the generic [_pop_node] opens: decorators
    then the [def] line for a function, one line otherwise. *)
Definition header_lines (k : scope) : list string :=
  match k with
  | if_ t => ["if " ++ safe_expr (Some t) ++ ":"]
  | for_ t i => ["for " ++ safe_expr (Some t) ++ " in " ++ safe_expr (Some i) ++ ":"]
  | async_for t i => ["async for " ++ safe_expr (Some t) ++ " in " ++ safe_expr (Some i) ++ ":"]
  | while_ t => ["while " ++ safe_expr (Some t) ++ ":"]
  | try_ => ["try:"]
  | with_ c v => ["with " ++ join_with ", " (map gen_withitem [mk_withitem (Some c) v]) ++ ":"]
  | func nm a r ds tps =>
      app (map (fun e => "@" ++ gen_expr e) ds)
        [def_line "" "def" nm tps (Some (default_arguments a)) (returns_node r)]
  | async_func nm a r tps =>
      [def_line "" "async def" nm tps (Some (default_arguments a)) (returns_node r)]
  | class_ nm bs =>
      ["class " ++ nm
       ++ match bs with [] => "" | _ => "(" ++ join_with ", " (map gen_expr bs) ++ ")" end
       ++ ":"]
  | elif_ _ | else_ | match_ _ | case_ _ _ | except_ _ _ | finally_ => []
  end.

Definition nonempty_list {A} (l : list A) : bool :=
  match l with [] => false | _ => true end.

(** A well-formed tree: every block that is rendered under a header has at
    least one statement (the builder's [pass] placeholder guarantees it),
    every statement has some text (no empty comment or empty expression
    statement), and only [BaseNode]s occur. *)
Fixpoint wf_node (n : node) : bool :=
  match n with
  | Comment t => negb (String.eqb t "")
  | Expr v => negb (String.eqb (safe_expr v) "")
  | FinallyBuilder _ => false
  | Finally _ | Module_ _ => true
  | Import _ | Return _ | Pass | Break | Continue => true
  | Match _ cases => forallb wf_node cases
  | If _ body o | For _ _ body o | AsyncFor _ _ body o | While _ body o =>
      nonempty_list body && forallb wf_node body && forallb wf_node o
  | Try body hs o f =>
      nonempty_list body && forallb wf_node body && forallb wf_node hs
      && forallb wf_node o && forallb wf_node f
  | ClassDef _ _ _ body | FunctionDef _ _ _ _ _ body | AsyncFunctionDef _ _ _ _ _ body
  | Elif _ body | Else body | With _ body | MatchCase _ _ body
  | ExceptHandler _ _ body =>
      nonempty_list body && forallb wf_node body
  end.

(** [join_nl (a :: l) = a ++ pre_nl l]: each further line preceded by a
    line break. *)
Fixpoint pre_nl (l : list string) : string :=
  match l with [] => "" | x :: r => nl ++ x ++ pre_nl r end.

(** The hypothesis of the induction for [gen_node_layout]. *)
Definition renders_as_layout (n : node) : Prop :=
  wf_node n = true -> forall u d,
  gen_node n (mk_gen u (Z.of_nat d)) =
  (join_nl (lines u d (spec_layout n)), mk_gen u (Z.of_nat d)).

(** The scopes whose [__exit__] is the generic [Builder._pop_node]. *)
Definition pops_generically (k : scope) : bool :=
  match k with
  | if_ _ | for_ _ _ | async_for _ _ | while_ _ | try_ | with_ _ _
  | func _ _ _ _ _ | async_func _ _ _ _ | class_ _ _ => true
  | _ => false
  end.

(** The codes [_generate_nodes] joins for a statement list when every
    statement leaves the generator state as it found it: the [BaseNode]s
    rendered at [g], empty codes left out. *)
Definition rendered_codes (l : list node) (g : gen) : list string :=
  filter (fun c => negb (String.eqb c ""))
    (map (fun x => fst (gen_node x g)) (filter is_basenode l)).

(** ** Builder lemmas *)

Lemma run_script_SWith : forall k inner b,
  run_script (SWith k inner) b =
  match run_scripts inner (enter_scope k b) with
  | Some b' => exit_scope k b'
  | None => None
  end.
Proof.
  intros k inner b. simpl.
  assert (E : forall l b0,
    (fix run_list (l : list script) (b : builder) : option builder :=
       match l with
       | [] => Some b
       | x :: r => match run_script x b with Some b' => run_list r b' | None => None end
       end) l b0 = run_scripts l b0).
  { induction l as [|x r IH]; intros b0; simpl; [reflexivity|].
    destruct (run_script x b0); [apply IH|reflexivity]. }
  rewrite E. reflexivity.
Qed.

Lemma run_scripts_app : forall l1 l2 b,
  run_scripts (app l1 l2) b =
  match run_scripts l1 b with Some b' => run_scripts l2 b' | None => None end.
Proof.
  induction l1 as [|x r IH]; intros l2 b; simpl; [reflexivity|].
  destruct (run_script x b); [apply IH|reflexivity].
Qed.

Lemma body_of_with_body : forall n bd xs,
  body_of n = Some bd -> body_of (with_body n xs) = Some xs.
Proof. intros n bd xs H; destruct n; simpl in *; congruence. Qed.

Lemma with_body_twice : forall n xs ys,
  with_body (with_body n xs) ys = with_body n ys.
Proof. intros n xs ys; destruct n; reflexivity. Qed.

Lemma with_body_self : forall n bd, body_of n = Some bd -> with_body n bd = n.
Proof. intros n bd H; destruct n; simpl in *; congruence. Qed.

Lemma fill_pass_with_body : forall n bd xs,
  body_of n = Some bd -> fill_pass (with_body n xs) = with_body n (pass_fill xs).
Proof.
  intros n bd xs H. unfold fill_pass.
  rewrite (body_of_with_body n bd xs H).
  destruct xs as [|x r]; simpl; [apply with_body_twice | reflexivity].
Qed.

(** [builder.add_node] calls inside an open node with a body land in that
    body, in order. *)
Lemma run_scripts_adds : forall xs r n S bd,
  body_of n = Some bd ->
  run_scripts (map SAdd xs) (mk_builder r (n :: S)) =
  Some (mk_builder r (with_body n (app bd xs) :: S)).
Proof.
  induction xs as [|x xs IH]; intros r n S bd H; simpl.
  - rewrite app_nil_r, (with_body_self n bd H). reflexivity.
  - unfold add_node, append_current; simpl. rewrite H.
    rewrite (IH r (with_body n (app bd [x])) S (app bd [x])
               (body_of_with_body n bd _ H)).
    rewrite with_body_twice, <- app_assoc. reflexivity.
Qed.

Lemma run_scripts_adds_open : forall xs k r S,
  body_of (open_node k) = Some [] ->
  run_scripts (map SAdd xs) (enter_scope k (mk_builder r S)) =
  Some (mk_builder r (with_body (open_node k) xs :: S)).
Proof.
  intros xs k r S H. unfold enter_scope, push_node; simpl.
  apply (run_scripts_adds xs r (open_node k) S [] H).
Qed.


(** ** Generator lemmas *)

(** The statement lists a node owns. *)
Definition children (n : node) : list node :=
  match n with
  | If _ b o | For _ _ b o | AsyncFor _ _ b o | While _ b o => app b o
  | Try b h o f => app b (app h (app o f))
  | Match _ cs => cs
  | n => match body_of n with Some b => b | None => [] end
  end.

(** Induction over the tree, through the nested statement lists. *)
Lemma node_children_ind (P : node -> Prop)
  (H : forall n, Forall P (children n) -> P n) : forall n, P n.
Proof.
  fix IH 1. intros n. apply H.
  destruct n; simpl; repeat (apply Forall_app; split);
  match goal with
  | |- Forall P ?l =>
      exact ((fix F (l0 : list node) : Forall P l0 :=
                match l0 with
                | [] => Forall_nil P
                | x :: r => @Forall_cons node P x r (IH x) (F r)
                end) l)
  | |- _ => constructor
  end.
Qed.

Lemma incr_decr : forall g, decr (incr g) = g.
Proof. intros [u l]. unfold incr, decr; simpl. f_equal. lia. Qed.

Lemma gen_nodes_with_keeps : forall l,
  Forall (fun x => forall g, exists s, gen_node x g = (s, g)) l ->
  forall g, exists cs, gen_nodes_with gen_node l g = (cs, g).
Proof.
  intros l H. induction H as [|x r Hx Hr IH]; intros g; simpl.
  - eexists; reflexivity.
  - destruct (is_basenode x); [|apply IH].
    destruct (Hx g) as [c Hc]. rewrite Hc.
    destruct (IH g) as [cs Hcs]. rewrite Hcs. eexists; reflexivity.
Qed.

Lemma map_st_keeps : forall l,
  Forall (fun x => forall g, exists s, gen_node x g = (s, g)) l ->
  forall g, exists cs, map_st gen_node l g = (cs, g).
Proof.
  intros l H. induction H as [|x r Hx Hr IH]; intros g; simpl.
  - eexists; reflexivity.
  - destruct (Hx g) as [c Hc]. rewrite Hc.
    destruct (IH g) as [cs Hcs]. rewrite Hcs. eexists; reflexivity.
Qed.

(** Rendering a node leaves the generator state as it found it: every
    [indent_level += 1] is matched by a [-= 1]. *)
Lemma gen_node_keeps : forall n g, exists s, gen_node n g = (s, g).
Proof.
  apply (node_children_ind (fun n => forall g, exists s, gen_node n g = (s, g))). intros n Hch g.
  destruct n; simpl in Hch;
    repeat match goal with H : Forall _ (app _ _) |- _ =>
             apply Forall_app in H; destruct H end;
    simpl;
    repeat first
      [ rewrite incr_decr
      | progress (cbn beta iota zeta)
      | match goal with
        | H : Forall _ ?l |- context [gen_nodes_with gen_node ?l ?g] =>
            let E := fresh in destruct (gen_nodes_with_keeps l H g) as [? E]; rewrite E
        | H : Forall _ ?l |- context [map_st gen_node ?l ?g] =>
            let E := fresh in destruct (map_st_keeps l H g) as [? E]; rewrite E
        | |- context [match ?l with [] => _ | _ :: _ => _ end] => destruct l
        | |- context [match ?o with Some _ => _ | None => _ end] => destruct o
        end ];
    eexists; reflexivity.
Qed.


(** ** Layout lemmas *)

Lemma sapp_assoc : forall a b c : string, (a ++ b) ++ c = a ++ (b ++ c).
Proof. induction a as [|ch a IH]; intros b c; simpl; [reflexivity|]. rewrite IH; reflexivity. Qed.

Lemma sapp_nil_r : forall a : string, a ++ "" = a.
Proof. induction a as [|ch a IH]; simpl; [reflexivity|]. rewrite IH; reflexivity. Qed.

Lemma sapp_nonempty : forall a s b : string, s <> "" -> (a ++ s) ++ b <> "".
Proof.
  induction a as [|ch a IH]; intros s b Hs; simpl; [|discriminate].
  destruct s; [contradiction|discriminate].
Qed.

Lemma join_nl_cons : forall l a, join_nl (a :: l) = a ++ pre_nl l.
Proof.
  induction l as [|b r IH]; intros a.
  - unfold join_nl; simpl. symmetry; apply sapp_nil_r.
  - change (join_nl (a :: b :: r)) with (a ++ nl ++ join_nl (b :: r)).
    rewrite IH. reflexivity.
Qed.

Lemma pre_nl_app : forall l1 l2, pre_nl (app l1 l2) = pre_nl l1 ++ pre_nl l2.
Proof.
  induction l1 as [|x r IH]; intros l2; simpl; [reflexivity|].
  rewrite IH, !sapp_assoc. reflexivity.
Qed.

Lemma nl_join_nl : forall l, l <> [] -> nl ++ join_nl l = pre_nl l.
Proof. intros [|x r] H; [congruence|]. rewrite join_nl_cons. reflexivity. Qed.

Lemma join_nl_app_cons : forall A x R,
  join_nl (app A (x :: R)) = join_nl (app A [x]) ++ pre_nl R.
Proof.
  intros [|a A] x R; simpl.
  - rewrite !join_nl_cons. simpl. rewrite sapp_nil_r. reflexivity.
  - rewrite !join_nl_cons, !pre_nl_app. simpl. rewrite sapp_nil_r, !sapp_assoc.
    reflexivity.
Qed.

Lemma lines_cons : forall u d p l,
  lines u d (p :: l) = (repeat_str u (d + fst p) ++ snd p) :: lines u d l.
Proof. reflexivity. Qed.

Lemma lines_app : forall u d l1 l2, lines u d (app l1 l2) = app (lines u d l1) (lines u d l2).
Proof. intros; unfold lines; apply map_app. Qed.

Lemma lines_shift : forall u d l, lines u d (shift 1 l) = lines u (S d) l.
Proof.
  intros u d l. unfold lines, shift. rewrite map_map.
  apply map_ext. intros [k s]. simpl. rewrite Nat.add_succ_r. reflexivity.
Qed.

Lemma lines_decorators : forall u d ds,
  lines u d (map (fun e => (0, "@" ++ gen_expr e)) ds)
  = map (fun e => repeat_str u d ++ "@" ++ gen_expr e) ds.
Proof.
  intros u d ds. unfold lines. rewrite map_map.
  apply map_ext. intros e. simpl. rewrite Nat.add_0_r. reflexivity.
Qed.

Lemma lines_nonempty : forall u d l, l <> [] -> lines u d l <> [].
Proof. intros u d [|p l] H; [congruence|discriminate]. Qed.

(** Statements following one another: the texts of the statements, each
    non-empty, joined with line breaks. *)
Lemma cont_block : forall u d o,
  Forall (fun x => spec_layout x <> []) o ->
  pre_nl (map (fun x => join_nl (lines u d (spec_layout x))) o)
  = pre_nl (lines u d (concat (map spec_layout o))).
Proof.
  intros u d o H. induction H as [|x r Hx Hr IH]; simpl; [reflexivity|].
  rewrite lines_app, pre_nl_app, IH.
  rewrite <- (nl_join_nl (lines u d (spec_layout x))) by (apply lines_nonempty; exact Hx).
  rewrite !sapp_assoc. reflexivity.
Qed.

Lemma body_block : forall u d b s,
  Forall (fun x => spec_layout x <> []) b -> b <> [] ->
  nl ++ join_nl (map (fun x => join_nl (lines u d (spec_layout x))) b) ++ s
  = pre_nl (lines u d (concat (map spec_layout b))) ++ s.
Proof.
  intros u d b s H Hne.
  rewrite <- sapp_assoc, nl_join_nl by (destruct b; [congruence|discriminate]).
  rewrite cont_block by exact H. reflexivity.
Qed.

Lemma def_line_indent : forall i p nm tps a r,
  def_line i p nm tps a r = i ++ def_line "" p nm tps a r.
Proof. intros; unfold def_line; reflexivity. Qed.

Lemma except_line_indent : forall i ty nm, except_line i ty nm = i ++ except_line "" ty nm.
Proof. intros; unfold except_line; reflexivity. Qed.

Lemma indent_mk : forall u d, indent_str (mk_gen u (Z.of_nat d)) = repeat_str u d.
Proof. intros; unfold indent_str; simpl. rewrite Nat2Z.id. reflexivity. Qed.

Lemma incr_mk : forall u d, incr (mk_gen u (Z.of_nat d)) = mk_gen u (Z.of_nat (S d)).
Proof. intros; unfold incr; cbn [indent_char indent_level]. rewrite Nat2Z.inj_succ. reflexivity. Qed.

Lemma decr_mk : forall u d, decr (mk_gen u (Z.of_nat (S d))) = mk_gen u (Z.of_nat d).
Proof. intros; unfold decr; cbn [indent_char indent_level]. rewrite Nat2Z.inj_succ, Z.sub_1_r, Z.pred_succ. reflexivity. Qed.

(** A well-formed statement's text starts with a non-empty line at its own
    depth. *)
Lemma wf_layout_head : forall n, wf_node n = true ->
  exists s rest, spec_layout n = (0, s) :: rest /\ s <> "".
Proof.
  intros n H.
  destruct n; simpl in *;
    try (destruct decorators as [|e ds]); try (destruct decorator_list as [|e ds]);
    try (destruct value as [e|]);
    eexists; eexists; (split; [reflexivity|]);
    try (unfold def_line, except_line; simpl; discriminate).
  apply negb_true_iff, String.eqb_neq in H. exact H.
Qed.

Lemma wf_basenode : forall n, wf_node n = true -> is_basenode n = true.
Proof. intros [] H; simpl in *; congruence. Qed.

Lemma wf_layouts : forall l, forallb wf_node l = true -> Forall (fun x => spec_layout x <> []) l.
Proof.
  intros l H. apply Forall_forall. intros x Hx.
  rewrite forallb_forall in H. destruct (wf_layout_head x (H x Hx)) as (s & r & E & _).
  rewrite E. discriminate.
Qed.

Lemma rendered_nonempty : forall n u d, wf_node n = true ->
  String.eqb (join_nl (lines u d (spec_layout n))) "" = false.
Proof.
  intros n u d H. destruct (wf_layout_head n H) as (s & r & E & Hs).
  rewrite E, lines_cons, join_nl_cons.
  apply String.eqb_neq. apply sapp_nonempty. exact Hs.
Qed.

Lemma gen_nodes_with_layout : forall l u d,
  Forall renders_as_layout l -> forallb wf_node l = true ->
  gen_nodes_with gen_node l (mk_gen u (Z.of_nat d)) =
  (map (fun x => join_nl (lines u d (spec_layout x))) l, mk_gen u (Z.of_nat d)).
Proof.
  intros l u d H. induction H as [|x r Hx Hr IH]; intros Hwf; simpl; [reflexivity|].
  simpl in Hwf. apply andb_true_iff in Hwf as [Hwx Hwr].
  rewrite (wf_basenode x Hwx), (Hx Hwx u d), (rendered_nonempty x u d Hwx), (IH Hwr).
  reflexivity.
Qed.

Lemma map_st_layout : forall l u d,
  Forall renders_as_layout l -> forallb wf_node l = true ->
  map_st gen_node l (mk_gen u (Z.of_nat d)) =
  (map (fun x => join_nl (lines u d (spec_layout x))) l, mk_gen u (Z.of_nat d)).
Proof.
  intros l u d H. induction H as [|x r Hx Hr IH]; intros Hwf; simpl; [reflexivity|].
  simpl in Hwf. apply andb_true_iff in Hwf as [Hwx Hwr].
  rewrite (Hx Hwx u d), (IH Hwr). reflexivity.
Qed.

Lemma lines_nil : forall u d, lines u d [] = [].
Proof. reflexivity. Qed.

Lemma nonempty_list_ne : forall {A} (l : list A), nonempty_list l = true -> l <> [].
Proof. intros A [|x l] H; [discriminate|discriminate]. Qed.

Lemma join_nl_app_two : forall A x y R,
  join_nl (app A (x :: y :: R)) = join_nl (app A [x]) ++ pre_nl (y :: R).
Proof. intros; apply join_nl_app_cons. Qed.

Lemma join_nl_app_lines : forall A x u d L,
  join_nl (app A (x :: lines u d L)) = join_nl (app A [x]) ++ pre_nl (lines u d L).
Proof. intros; apply join_nl_app_cons. Qed.

Ltac layout_gen :=
  repeat first
    [ rewrite indent_mk | rewrite incr_mk | rewrite decr_mk
    | match goal with
      | H1 : Forall renders_as_layout ?l, H2 : forallb wf_node ?l = true
        |- context [gen_nodes_with gen_node ?l (mk_gen ?u (Z.of_nat ?d))] =>
          rewrite (gen_nodes_with_layout l u d H1 H2)
      | H1 : Forall renders_as_layout ?l, H2 : forallb wf_node ?l = true
        |- context [map_st gen_node ?l (mk_gen ?u (Z.of_nat ?d))] =>
          rewrite (map_st_layout l u d H1 H2)
      end
    | progress (cbn beta iota zeta) ].

Ltac layout_side :=
  first [ apply wf_layouts; assumption | apply nonempty_list_ne; assumption | discriminate ].

Ltac layout_finish :=
  f_equal;
  cbn [spec_layout app];
  rewrite ?app_nil_r;
  repeat first [ rewrite lines_app | rewrite lines_decorators | rewrite lines_cons
               | rewrite lines_shift | rewrite lines_nil ];
  cbn [fst snd]; rewrite ?Nat.add_0_r;
  cbn [app];
  rewrite ?join_nl_app_two, ?join_nl_app_lines, ?join_nl_cons;
  repeat first [ rewrite pre_nl_app | progress cbn [pre_nl] ];
  rewrite ?(def_line_indent (repeat_str _ _)), ?(except_line_indent (repeat_str _ _));
  repeat (rewrite body_block by layout_side);
  repeat (rewrite cont_block by layout_side);
  rewrite ?sapp_nil_r, ?sapp_assoc; reflexivity.

Lemma gen_node_layout : forall n, renders_as_layout n.
Proof.
  apply (node_children_ind renders_as_layout). intros n Hch Hwf u d.
  destruct n; cbn [children body_of] in Hch;
    repeat match goal with H : Forall _ (app _ _) |- _ =>
             apply Forall_app in H; destruct H end;
    cbn [wf_node] in Hwf;
    repeat match goal with H : (_ && _) = true |- _ =>
             apply andb_true_iff in H; destruct H end;
    cbn [gen_node]; layout_gen.
  all: try (destruct or_else); try (destruct finalbody);
       try (match goal with |- context [match ?v with Some _ => _ | None => _ end] => destruct v end);
       try (destruct (String.eqb text "")); layout_gen.
  all: try layout_finish.
  all: discriminate.
Qed.

(** The header lines of a composite opened by a generically closed scope,
    with a lone [pass] as its body. *)
Lemma pass_body_layout : forall k, pops_generically k = true ->
  exists hdr, spec_layout (with_body (open_node k) [Pass]) = app hdr [(1, "pass")]
  /\ Forall (fun p => fst p = 0) hdr /\ hdr <> [].
Proof.
  intros k Hk. destruct k; try discriminate; cbn.
  - eexists [(0, _)]. split; [reflexivity | split; [repeat constructor | discriminate]].
  - eexists [(0, _)]. split; [reflexivity | split; [repeat constructor | discriminate]].
  - eexists [(0, _)]. split; [reflexivity | split; [repeat constructor | discriminate]].
  - eexists [(0, _)]. split; [reflexivity | split; [repeat constructor | discriminate]].
  - eexists [(0, _)]. split; [reflexivity | split; [repeat constructor | discriminate]].
  - eexists [(0, _)]. split; [reflexivity | split; [repeat constructor | discriminate]].
  - exists (app (map (fun e => (0, "@" ++ gen_expr e)) decorators_list)
              [(0, def_line "" "def" name type_params (Some (default_arguments fargs)) (returns_node returns))]).
    rewrite <- app_assoc. split; [reflexivity | split].
    + apply Forall_app. split; [|repeat constructor].
      apply Forall_forall. intros p Hp. apply in_map_iff in Hp as (e & <- & _). reflexivity.
    + intro E. apply app_eq_nil in E as [_ E]. discriminate.
  - eexists [(0, _)]. split; [reflexivity | split; [repeat constructor | discriminate]].
  - eexists [(0, _)]. split; [reflexivity | split; [repeat constructor | discriminate]].
Qed.

Lemma pass_body_header : forall k, pops_generically k = true ->
  spec_layout (with_body (open_node k) [Pass])
  = app (map (fun h => (0, h)) (header_lines k)) [(1, "pass")].
Proof.
  intros k Hk. destruct k; try discriminate; try reflexivity.
  cbn [open_node with_body spec_layout header_lines map concat].
  rewrite map_app, map_map, <- app_assoc. reflexivity.
Qed.

Lemma sapp_nonempty_r : forall a b : string, b <> "" -> a ++ b <> "".
Proof. intros [|c a] b H; simpl; [exact H | discriminate]. Qed.

Lemma gen_nodes_with_rendered : forall l g,
  gen_nodes_with gen_node l g = (rendered_codes l g, g).
Proof.
  induction l as [|x r IH]; intros g; [reflexivity|].
  unfold rendered_codes. cbn [gen_nodes_with filter].
  destruct (is_basenode x); [|apply IH].
  destruct (gen_node_keeps x g) as [c E]. rewrite E, IH.
  cbn [map filter]. rewrite E. cbn [fst]. unfold rendered_codes.
  destruct (String.eqb c ""); reflexivity.
Qed.

Lemma rendered_codes_app : forall pre x post g,
  rendered_codes (app pre (x :: post)) g
  = app (rendered_codes pre g) (rendered_codes (x :: post) g).
Proof.
  intros pre x post g. unfold rendered_codes. rewrite filter_app, map_app, filter_app.
  reflexivity.
Qed.


Lemma rendered_codes_cons_base : forall x l g, is_basenode x = true ->
  rendered_codes (x :: l) g =
  if String.eqb (fst (gen_node x g)) "" then rendered_codes l g
  else fst (gen_node x g) :: rendered_codes l g.
Proof.
  intros x l g H. unfold rendered_codes. cbn [filter]. rewrite H. cbn [map filter].
  destruct (String.eqb (fst (gen_node x g)) ""); reflexivity.
Qed.

(** Where the lines of a node's [body] sit in its layout: after header
    lines of relative depth 0, one level deeper. *)
Lemma body_layout_split : forall n b,
  body_of n = Some b -> unknown_kind_name n = None ->
  exists hdr rest,
    spec_layout n = app hdr (app (shift 1 (concat (map spec_layout b))) rest)
    /\ Forall (fun p => fst p = 0) hdr /\ hdr <> [].
Proof.
  intros n b Hb Hu.
  destruct n; cbn in Hb; try discriminate; injection Hb as <-; cbn in Hu; try discriminate;
    cbn [spec_layout].
  all: first
    [ eexists [(0, _)], []; rewrite app_nil_r;
      split; [reflexivity | split; [repeat constructor | discriminate]]
    | eexists [(0, _)], _;
      split; [reflexivity | split; [repeat constructor | discriminate]]
    | eexists (app (map _ _) [(0, _)]), []; rewrite app_nil_r, <- app_assoc;
      split; [reflexivity | split];
      [ apply Forall_app; split; [|repeat constructor];
        apply Forall_forall; intros p Hp; apply in_map_iff in Hp as (e & <- & _); reflexivity
      | intro E; apply app_eq_nil in E as [_ E]; discriminate ] ].
Qed.

Lemma lines_depth0 : forall u d hdr, Forall (fun p => fst p = 0) hdr ->
  lines u d hdr = map (fun h => repeat_str u d ++ h) (map snd hdr).
Proof.
  intros u d hdr H. induction H as [|[k h] r Hk Hr IH]; [reflexivity|].
  cbn in Hk. subst k. rewrite lines_cons, IH. cbn. rewrite Nat.add_0_r. reflexivity.
Qed.

(** ** Claims about the builder *)

(** C1: [with if_(t): add s1; with elif_(t2): add s2; with else_(): add s3]
    leaves one [If] whose [or_else] is exactly [[Elif t2 [s2]; s3]]: the
    [Elif] appended whole, then the else statement spliced in without its
    [Else] wrapper; the [If] goes where any statement would go. *)
Theorem if_elif_else_or_else : forall st t s1 t2 s2 s3,
  run_script (SWith (if_ t) [SAdd s1; SWith (elif_ t2) [SAdd s2]; SWith else_ [SAdd s3]]) st
  = Some (append_current st (If (Some t) [s1] [Elif (Some t2) [s2]; s3])).
Proof.
  intros [r S] t s1 t2 s2 s3.
  reflexivity.
Qed.

(** Reduces a script run whose blocks only add statements. *)
Ltac run_blocks :=
  repeat (rewrite ?run_script_SWith, ?run_scripts_app, ?run_scripts_adds_open by reflexivity;
          simpl).

(** C2: an [else_] block closed right inside a loop.  Under a [while_] its
    statements are spliced into the loop's [or_else]; under [for_] and
    [async_for] (not in [(If, While, Try)]) the fallback appends the whole
    [Else] node to the loop's body and [or_else] stays empty. *)
Theorem loop_else_exit : forall r S t i body es,
  run_script (SWith (while_ t) (app (map SAdd body) [SWith else_ (map SAdd es)]))
    (mk_builder r S)
  = Some (append_current (mk_builder r S) (While (Some t) (pass_fill body) (pass_fill es)))
  /\ run_script (SWith (for_ t i) (app (map SAdd body) [SWith else_ (map SAdd es)]))
    (mk_builder r S)
  = Some (append_current (mk_builder r S)
            (For (Some t) (Some i) (app body [Else (pass_fill es)]) []))
  /\ run_script (SWith (async_for t i) (app (map SAdd body) [SWith else_ (map SAdd es)]))
    (mk_builder r S)
  = Some (append_current (mk_builder r S)
            (AsyncFor (Some t) (Some i) (app body [Else (pass_fill es)]) [])).
Proof.
  intros r S t i body es.
  repeat split; run_blocks; destruct es, body; reflexivity.
Qed.

(** C3: a [case_] block closed with the enclosing [Match] as the new top is
    appended to its [cases] (with its pattern, guard and filled body); with
    anything else on top, or nothing, it is dropped: the result is the
    builder as it was before the block, and no error is raised. *)
Theorem case_exit_attach_or_drop : forall r S p g xs,
  run_script (SWith (case_ p g) (map SAdd xs)) (mk_builder r S) =
  Some (match S with
        | Match s cs :: S' =>
            mk_builder r (Match s (app cs [MatchCase (Some p) g (pass_fill xs)]) :: S')
        | _ => mk_builder r S
        end).
Proof.
  intros r S p g xs. run_blocks.
  destruct S as [|n S]; [destruct xs; reflexivity|].
  destruct n, xs; reflexivity.
Qed.

(** C4 (amended): a block opened by a scope whose exit is the generic
    [_pop_node] ([if_], [for_], [async_for], [while_], [try_], [with_],
    [func], [async_func], [class_]) is closed with its body exactly the
    statements added, or a lone [Pass] when none was added; with the lone
    [Pass] it renders as its header lines ([header_lines], never empty) at
    the current indentation and exactly one line [pass] one level deeper.  A [match_] block closed with no case
    gets no placeholder (a [Match] has no [body]) and renders as its header
    line alone. *)
Theorem empty_body_gets_pass : forall k xs r stk u d,
  pops_generically k = true ->
  run_script (SWith k (map SAdd xs)) (mk_builder r stk)
  = Some (append_current (mk_builder r stk) (with_body (open_node k) (pass_fill xs)))
  /\ header_lines k <> []
  /\ gen_node (with_body (open_node k) (pass_fill [])) (mk_gen u (Z.of_nat d))
     = (join_nl (app (map (fun h => repeat_str u d ++ h) (header_lines k))
                     [repeat_str u (S d) ++ "pass"]),
        mk_gen u (Z.of_nat d))
  /\ (forall s,
      run_script (SWith (match_ s) []) (mk_builder r stk)
      = Some (append_current (mk_builder r stk) (Match (Some s) []))
      /\ body_of (Match (Some s) []) = None
      /\ gen_node (Match (Some s) []) (mk_gen u (Z.of_nat d))
      = (repeat_str u d ++ "match " ++ gen_expr s ++ ":", mk_gen u (Z.of_nat d))).
Proof.
  intros k xs r stk u d Hk. split; [|split; [|split]].
  - rewrite run_script_SWith, run_scripts_adds_open
      by (destruct k; try discriminate; reflexivity).
    assert (E : exit_scope k = pop_node) by (destruct k; try discriminate; reflexivity).
    rewrite E. unfold pop_node; cbn [stack root_nodes].
    rewrite (fill_pass_with_body (open_node k) [])
      by (destruct k; try discriminate; reflexivity).
    reflexivity.
  - destruct k; try discriminate; cbn [header_lines]; try discriminate.
    intro E. apply app_eq_nil in E as [_ E]. discriminate.
  - assert (Hw : wf_node (with_body (open_node k) [Pass]) = true)
      by (destruct k; try discriminate; reflexivity).
    cbn [pass_fill]. rewrite (gen_node_layout _ Hw u d), (pass_body_header k Hk), lines_app.
    rewrite lines_cons, lines_nil. cbn [fst snd]. rewrite Nat.add_1_r.
    unfold lines. rewrite map_map. cbn [fst snd]. rewrite Nat.add_0_r. reflexivity.
  - intros s. split; [reflexivity | split; [reflexivity|]].
    cbn [gen_node map_st join_nl join_with]. rewrite indent_mk, incr_mk, decr_mk.
    reflexivity.
Qed.

Lemma empty_body_gets_pass_witness :
  pops_generically (func "f" None (Some "int") [Name "dec"] [Name "T"]) = true
  /\ header_lines (func "f" None (Some "int") [Name "dec"] [Name "T"])
     = ["@dec"; "def f[T]() -> int:"]
  /\ gen_node (with_body (open_node (func "f" None (Some "int") [Name "dec"] [Name "T"]))
                (pass_fill [])) (mk_gen tab (Z.of_nat 1))
     = (String.concat nl [tab ++ "@dec"; tab ++ "def f[T]() -> int:"; tab ++ tab ++ "pass"],
        mk_gen tab (Z.of_nat 1)).
Proof.
  destruct (empty_body_gets_pass (func "f" None (Some "int") [Name "dec"] [Name "T"])
              [] [] [] tab 1 eq_refl) as (_ & _ & H & _).
  split; [reflexivity | split; [reflexivity|]].
  rewrite H. reflexivity.
Defined.

(** C4 fails for [match_]: [with match_(b, Name("x")): pass] leaves a
    [Match] with no cases and no [Pass], rendered as [match x:] alone. *)
Lemma match_closed_empty_no_placeholder :
  run_script (SWith (match_ (Name "x")) []) empty_builder
  = Some (mk_builder [Match (Some (Name "x")) []] [])
  /\ body_of (Match (Some (Name "x")) []) = None
  /\ fst (gen_nodes [Match (Some (Name "x")) []] (CodeGenerator_init tab)) = "match x:".
Proof. split; [reflexivity | split; reflexivity]. Qed.

(** C5: [with try_(): <body>; with except_(t1, n1): <h1>;
    with except_(t2, n2): <h2>; with finally_(): <fs>] with [fs] not empty
    gives a [Try] whose [handlers] are the two handlers in order and whose
    [finalbody] is [fs], whatever [body] is; and closing a [finally_]
    block extends an existing [finalbody] rather than replacing it. *)
Theorem try_handlers_finalbody : forall r S body t1 n1 h1 t2 n2 h2 fs,
  fs <> [] ->
  run_script (SWith try_ (app (map SAdd body)
      [SWith (except_ t1 n1) (map SAdd h1); SWith (except_ t2 n2) (map SAdd h2);
       SWith finally_ (map SAdd fs)])) (mk_builder r S)
  = Some (append_current (mk_builder r S)
      (Try (pass_fill body)
         [ExceptHandler t1 n1 (pass_fill h1); ExceptHandler t2 n2 (pass_fill h2)] [] fs))
  /\ (forall bd h o f S',
      run_script (SWith finally_ (map SAdd fs)) (mk_builder r (Try bd h o f :: S'))
      = Some (mk_builder r (Try bd h o (app f fs) :: S'))).
Proof.
  intros r S body t1 n1 h1 t2 n2 h2 fs Hfs.
  split.
  - run_blocks. destruct fs as [|x fs]; [congruence|].
    destruct body, h1, h2; reflexivity.
  - intros bd h o f S'. run_blocks. destruct fs as [|x fs]; [congruence|].
    reflexivity.
Qed.

Lemma try_handlers_finalbody_witness :
  [Continue; Break] <> []
  /\ run_script
       (SWith try_ (app (map SAdd [Break; Continue])
          [SWith (except_ (Some (Name "E1")) (Some "e")) (map SAdd [Pass]);
           SWith (except_ (Some (Name "E2")) None) (map SAdd []);
           SWith finally_ (map SAdd [Continue; Break])]))
       (mk_builder [Pass] [])
     = Some (mk_builder
               [Pass; Try [Break; Continue]
                        [ExceptHandler (Some (Name "E1")) (Some "e") [Pass];
                         ExceptHandler (Some (Name "E2")) None [Pass]]
                        [] [Continue; Break]] [])
  /\ run_script (SWith finally_ (map SAdd [Continue; Break]))
       (mk_builder [Pass] [Try [Pass] [] [] [Return None]])
     = Some (mk_builder [Pass] [Try [Pass] [] [] [Return None; Continue; Break]]).
Proof.
  destruct (try_handlers_finalbody [Pass] [] [Break; Continue] (Some (Name "E1")) (Some "e")
              [Pass] (Some (Name "E2")) None [] [Continue; Break] ltac:(discriminate))
    as [H1 H2].
  split; [discriminate | split].
  - rewrite H1. reflexivity.
  - rewrite (H2 [Pass] [] [] [Return None] []). reflexivity.
Defined.

(** C10: a [finally_] block closed with a [Try] as the new top extends its
    [finalbody]; with anything else on top, or nothing, its statements are
    dropped and the builder is as before the block.  The handler clause
    does not always fall back to an ordinary append: closed with an empty
    stack it is dropped too, while an [else_] block there goes to
    [root_nodes]. *)
Theorem finally_exit_discard : forall r S xs ty nm,
  run_script (SWith finally_ (map SAdd xs)) (mk_builder r S) =
  Some (match S with
        | Try bd h o f :: S' => mk_builder r (Try bd h o (app f (pass_fill xs)) :: S')
        | _ => mk_builder r S
        end)
  /\ run_script (SWith (except_ ty nm) (map SAdd xs)) (mk_builder r []) =
     Some (mk_builder r [])
  /\ run_script (SWith else_ (map SAdd xs)) (mk_builder r []) =
     Some (mk_builder (app r [Else (pass_fill xs)]) []).
Proof.
  intros r S xs ty nm. repeat split; run_blocks.
  - destruct S as [|n S]; [destruct xs; reflexivity|].
    destruct n, xs; reflexivity.
  - destruct xs; reflexivity.
  - destruct xs; reflexivity.
Qed.


Lemma gen_nodes_keeps : forall l g, exists s, gen_nodes l g = (s, g).
Proof.
  intros l g. unfold gen_nodes.
  assert (H : Forall (fun x => forall g, exists s, gen_node x g = (s, g)) l)
    by (apply Forall_forall; intros x _; apply gen_node_keeps).
  destruct (gen_nodes_with_keeps l H g) as [cs E]. rewrite E.
  eexists; reflexivity.
Qed.

Lemma generate_keeps : forall g b m fn path,
  snd (fst (generate g b m fn path)) = g.
Proof.
  intros g b m fn path. unfold generate.
  destruct (gen_nodes_keeps (root_nodes b) g) as [s E]. rewrite E.
  destruct m; [reflexivity|].
  destruct (truthy_str fn); [destruct fn|]; reflexivity.
Qed.

(** ** Claims about the generator *)

(** C7: calling [generate] on the same generator and the same builder
    again, after a first call, gives the same result and the same effects:
    the first call leaves the generator state ([indent_level]) as it was. *)
Theorem generate_twice : forall g b m fn path,
  snd (fst (generate g b m fn path)) = g /\
  generate (snd (fst (generate g b m fn path))) b m fn path = generate g b m fn path.
Proof.
  intros g b m fn path. rewrite generate_keeps. split; reflexivity.
Qed.

(** C8: in [file] mode, a missing (or empty) file name raises the
    [ValueError] with no effect at all; a file name makes [generate] write
    the rendered text to that file under [path], as its only effect, and
    return the same text. *)
Theorem generate_file_mode : forall g b path fn,
  generate g b file None path =
    (ValueError "file_name is required when mode='file'", g, [])
  /\ generate g b file (Some fn) path =
    if String.eqb fn "" then (ValueError "file_name is required when mode='file'", g, [])
    else (Returned (fst (gen_nodes (root_nodes b) g)), g,
          [WriteText path fn (fst (gen_nodes (root_nodes b) g))]).
Proof.
  intros g b path fn. unfold generate.
  destruct (gen_nodes_keeps (root_nodes b) g) as [s E]. rewrite E. simpl.
  split; [reflexivity|].
  destruct (String.eqb fn ""); reflexivity.
Qed.

(** C6: for a well-formed tree, at nesting depth [d] (indentation level
    [d] of a generator with indentation unit [u]) a node renders as the
    lines of its layout, each prefixed by [u] repeated [d] plus its
    relative depth; in that layout the node's header lines come first, at
    relative depth 0 (prefix exactly [d] units), and the lines of its
    [body] at one more level than they have on their own (so the body's
    statements are rendered at depth [d+1]). *)
Theorem indentation_invariant : forall n u d, wf_node n = true ->
  gen_node n (mk_gen u (Z.of_nat d))
  = (join_nl (lines u d (spec_layout n)), mk_gen u (Z.of_nat d))
  /\ (forall b, body_of n = Some b -> unknown_kind_name n = None ->
      exists hdr rest, hdr <> [] /\
        lines u d (spec_layout n)
        = app (map (fun h => repeat_str u d ++ h) hdr)
            (app (lines u (S d) (concat (map spec_layout b))) (lines u d rest))).
Proof.
  intros n u d Hw. split; [exact (gen_node_layout n Hw u d)|].
  intros b Hb Hu.
  destruct (body_layout_split n b Hb Hu) as (hdr & rest & E & H0 & Hne).
  exists (map snd hdr), rest. split; [destruct hdr; [congruence | discriminate]|].
  rewrite E, !lines_app, lines_shift, lines_depth0 by exact H0. reflexivity.
Qed.

Lemma indentation_invariant_witness :
  wf_node (If (Some (Name "x")) [Pass] []) = true
  /\ gen_node (If (Some (Name "x")) [Pass] []) (mk_gen tab (Z.of_nat 1))
     = (join_nl (lines tab 1 (spec_layout (If (Some (Name "x")) [Pass] []))),
        mk_gen tab (Z.of_nat 1)).
Proof.
  split; [reflexivity|].
  apply (indentation_invariant (If (Some (Name "x")) [Pass] []) tab 1). reflexivity.
Defined.

(** C9: a node of a kind [_generate_node] has no rule for renders, without
    error, as one line: the current indentation and
    [# Unknown node: <class name>], the state unchanged; in a statement
    list the other statements render as they would anyway, around it. *)
Theorem unknown_kind_placeholder : forall n nm,
  unknown_kind_name n = Some nm -> is_basenode n = true ->
  (forall g, gen_node n g = (indent_str g ++ "# Unknown node: " ++ nm, g))
  /\ (forall pre post g,
      gen_nodes (app pre (n :: post)) g
      = (join_nl (app (rendered_codes pre g)
                    ((indent_str g ++ "# Unknown node: " ++ nm) :: rendered_codes post g)), g)).
Proof.
  intros n nm Hk Hb.
  assert (G : forall g, gen_node n g = (indent_str g ++ "# Unknown node: " ++ nm, g))
    by (intros g; destruct n; cbn in Hk; try discriminate; injection Hk as <-; reflexivity).
  split; [exact G|].
  intros pre post g. unfold gen_nodes.
  rewrite gen_nodes_with_rendered, rendered_codes_app, (rendered_codes_cons_base n post g Hb), G.
  cbn [fst].
  assert (Hne : String.eqb (indent_str g ++ "# Unknown node: " ++ nm) "" = false)
    by (apply String.eqb_neq, sapp_nonempty_r; discriminate).
  rewrite Hne. reflexivity.
Qed.

Lemma unknown_kind_placeholder_witness :
  unknown_kind_name (Finally []) = Some "Finally"
  /\ is_basenode (Finally []) = true
  /\ gen_node (Finally []) (CodeGenerator_init tab)
     = (indent_str (CodeGenerator_init tab) ++ "# Unknown node: " ++ "Finally",
        CodeGenerator_init tab).
Proof.
  split; [reflexivity | split; [reflexivity|]].
  apply (unknown_kind_placeholder (Finally []) "Finally"); reflexivity.
Defined.

(** ** Further properties of the builder and the generator *)

(** Induction over a script, through the nested lists of [with] blocks. *)
Lemma script_ind2 (P : script -> Prop) (Q : list script -> Prop)
  (HA : forall n, P (SAdd n)) (HW : forall k l, Q l -> P (SWith k l))
  (Hnil : Q []) (Hcons : forall x l, P x -> Q l -> Q (x :: l)) : forall s, P s.
Proof.
  fix IH 1. intros [n|k l]; [apply HA | apply HW].
  exact ((fix F (l0 : list script) : Q l0 :=
            match l0 with
            | [] => Hnil
            | x :: r => Hcons x r (IH x) (F r)
            end) l).
Qed.

Lemma append_current_length : forall b x,
  length (stack (append_current b x)) = length (stack b).
Proof.
  intros [r [|n S]] x; unfold append_current; cbn [stack]; [reflexivity|].
  destruct (body_of n); reflexivity.
Qed.

(** Every [__exit__] succeeds once the stack holds the block's own entry,
    and leaves one entry less. *)
Lemma exit_scope_total : forall k r n0 rest,
  exists b', exit_scope k (mk_builder r (n0 :: rest)) = Some b'
             /\ length (stack b') = length rest.
Proof.
  intros k r n0 rest.
  destruct k; cbn [exit_scope];
    unfold pop_node, ElifBuilder_exit, ElseBuilder_exit, CaseBuilder_exit,
      ExceptBuilder_exit, FinallyBuilder_exit;
    cbn [stack root_nodes];
    repeat match goal with
           | |- context [match ?x with _ => _ end] =>
               lazymatch x with
               | append_current _ _ => fail
               | _ => destruct x
               end
           end;
    eexists; (split; [reflexivity|]); cbn [stack length];
    rewrite ?append_current_length; reflexivity.
Qed.

(** X1: a script of [add_node] calls and [with] blocks never makes the
    builder raise (no [IndexError] from an exit popping an empty stack),
    whatever the builder it starts from, and it leaves the stack as deep as
    it found it. *)
Theorem run_script_never_fails : forall s b,
  exists b', run_script s b = Some b' /\ length (stack b') = length (stack b).
Proof.
  apply (script_ind2
           (fun s => forall b, exists b', run_script s b = Some b'
                                      /\ length (stack b') = length (stack b))
           (fun l => forall b, exists b', run_scripts l b = Some b'
                                      /\ length (stack b') = length (stack b))).
  - intros n b. exists (add_node b n). split; [reflexivity | apply append_current_length].
  - intros k l IHl b. rewrite run_script_SWith.
    destruct (IHl (enter_scope k b)) as (b1 & E1 & L1). rewrite E1.
    destruct b1 as [r1 [|n0 rest]]; cbn in L1; [discriminate|].
    destruct (exit_scope_total k r1 n0 rest) as (b2 & E2 & L2).
    exists b2. split; [exact E2|]. rewrite L2. injection L1 as L1. exact L1.
  - intros b. exists b. split; reflexivity.
  - intros x l Hx Hl b. cbn [run_scripts].
    destruct (Hx b) as (b1 & E1 & L1). rewrite E1.
    destruct (Hl b1) as (b2 & E2 & L2). rewrite E2.
    exists b2. split; [reflexivity | congruence].
Qed.

(** X2: a statement added while a [match_] block is the innermost open
    block (outside any [case_]) does not go into the match: [Match] has no
    [body], so [_get_current_body] gives [root_nodes].  It lands at the top
    level of the module, before the [Match], whatever blocks enclose the
    match. *)
Theorem match_block_statement_escapes : forall r S s x,
  run_script (SWith (match_ s) [SAdd x]) (mk_builder r S)
  = Some (append_current (mk_builder (app r [x]) S) (Match (Some s) []))
  /\ (forall cs, add_node (mk_builder r (Match (Some s) cs :: S)) x
                 = mk_builder (app r [x]) (Match (Some s) cs :: S)).
Proof. intros r S s x. split; [reflexivity | intros cs; reflexivity]. Qed.

Lemma fill_pass_idem : forall n, fill_pass (fill_pass n) = fill_pass n.
Proof.
  intros n. unfold fill_pass. destruct (body_of n) as [[|x xs]|] eqn:E.
  - rewrite (body_of_with_body n [] [Pass] E). reflexivity.
  - rewrite E. reflexivity.
  - rewrite E. reflexivity.
Qed.

Lemma fill_pass_nonempty : forall n, body_of (fill_pass n) <> Some [].
Proof.
  intros n. unfold fill_pass. destruct (body_of n) as [[|x xs]|] eqn:E.
  - rewrite (body_of_with_body n [] [Pass] E). discriminate.
  - rewrite E. discriminate.
  - rewrite E. discriminate.
Qed.

(** X3: [Builder.__exit__] gives every top-level node that has a [body]
    a non-empty one, leaves the stack alone, changes a top-level node only
    when its body is empty (then to [[Pass]]), never looks inside a node,
    and doing it twice is doing it once. *)
Theorem builder_exit_fills_top_level : forall b,
  Forall (fun n => body_of n <> Some []) (root_nodes (builder_exit b))
  /\ stack (builder_exit b) = stack b
  /\ Forall2 (fun n n' => (n' = n /\ body_of n <> Some [])
                         \/ (body_of n = Some [] /\ n' = with_body n [Pass]))
       (root_nodes b) (root_nodes (builder_exit b))
  /\ builder_exit (builder_exit b) = builder_exit b.
Proof.
  intros [r S]. unfold builder_exit; cbn [root_nodes stack].
  split; [|split; [reflexivity | split]].
  - apply Forall_map, Forall_forall. intros n _. apply fill_pass_nonempty.
  - induction r as [|n r IH]; constructor; [|exact IH].
    unfold fill_pass. destruct (body_of n) as [[|x xs]|] eqn:E.
    + right. split; reflexivity.
    + left. split; [reflexivity | discriminate].
    + left. split; [reflexivity | discriminate].
  - rewrite map_map. f_equal. apply map_ext. apply fill_pass_idem.
Qed.

(** X6: rendering any node, and any statement list, gives the generator
    back with the indentation level it had: every [indent_level += 1] of
    [_generate_node] is undone by a [-= 1]. *)
Theorem generator_level_restored : forall g,
  (forall n, snd (gen_node n g) = g) /\ (forall l, snd (gen_nodes l g) = g).
Proof.
  intros g. split.
  - intros n. destruct (gen_node_keeps n g) as [s E]. rewrite E. reflexivity.
  - intros l. destruct (gen_nodes_keeps l g) as [s E]. rewrite E. reflexivity.
Qed.

Lemma gen_nodes_rendered : forall l g, gen_nodes l g = (join_nl (rendered_codes l g), g).
Proof. intros l g. unfold gen_nodes. rewrite gen_nodes_with_rendered. reflexivity. Qed.

(** A statement that renders to the empty text at [g] is left out of the
    statement list's text at [g]. *)
Lemma gen_nodes_skip_empty : forall pre x post g,
  fst (gen_node x g) = "" ->
  gen_nodes (app pre (x :: post)) g = gen_nodes (app pre post) g.
Proof.
  intros pre x post g H. rewrite !gen_nodes_rendered, rendered_codes_app.
  unfold rendered_codes at 2. cbn [filter].
  destruct (is_basenode x); cbn [map filter]; [rewrite H; cbn [String.eqb negb]|];
  unfold rendered_codes; rewrite filter_app, map_app, filter_app; reflexivity.
Qed.


(** X5: an expression statement whose expression renders empty (no
    value, or a name [""]) renders as the indentation alone.  Where the
    indentation is empty (level 0, or an empty unit) [_generate_nodes]
    drops it; inside a block with a non-empty indentation it stays, as a
    line holding only whitespace. *)
Theorem empty_expression_statement : forall v,
  safe_expr v = "" ->
  (forall g, gen_node (Expr v) g = (indent_str g, g))
  /\ (forall pre post g, indent_str g = "" ->
        gen_nodes (app pre (Expr v :: post)) g = gen_nodes (app pre post) g)
  /\ (forall pre post g, indent_str g <> "" ->
        gen_nodes (app pre (Expr v :: post)) g
        = (join_nl (app (rendered_codes pre g) (indent_str g :: rendered_codes post g)), g)).
Proof.
  intros v Hv.
  assert (E : forall g, gen_node (Expr v) g = (indent_str g, g))
    by (intros g; cbn [gen_node]; rewrite Hv, sapp_nil_r; reflexivity).
  split; [exact E | split].
  - intros pre post g Hg. apply gen_nodes_skip_empty. rewrite E. exact Hg.
  - intros pre post g Hg. rewrite gen_nodes_rendered, rendered_codes_app,
      rendered_codes_cons_base by reflexivity.
    rewrite E. cbn [fst]. destruct (String.eqb_spec (indent_str g) "") as [H|H];
      [contradiction | reflexivity].
Qed.

Lemma empty_expression_statement_witness :
  safe_expr None = ""
  /\ indent_str (mk_gen tab 1) <> ""
  /\ gen_nodes (app [Pass] (Expr None :: [Break])) (mk_gen tab 1)
     = (join_nl (app (rendered_codes [Pass] (mk_gen tab 1))
                     (indent_str (mk_gen tab 1) :: rendered_codes [Break] (mk_gen tab 1))),
        mk_gen tab 1).
Proof.
  split; [reflexivity | split; [discriminate|]].
  apply (proj2 (proj2 (empty_expression_statement None eq_refl)) [Pass] [Break] (mk_gen tab 1)).
  discriminate.
Defined.

Lemma pass_fill_wf : forall xs, forallb wf_node xs = true ->
  nonempty_list (pass_fill xs) = true /\ forallb wf_node (pass_fill xs) = true.
Proof. intros [|x xs] H; split; auto. Qed.

Lemma pass_fill_ne : forall xs, pass_fill xs <> [].
Proof. intros [|x xs]; discriminate. Qed.

(** Rewrites a rendered well-formed node to its lines. *)
Ltac render_layout n :=
  let Hw := fresh "Hw" in
  assert (Hw : wf_node n = true)
    by (cbn [wf_node forallb];
        repeat match goal with H : _ = true |- _ => rewrite H end; reflexivity);
  rewrite (gen_node_layout n Hw).

(** X7: what an [else_] block renders as depends on the block it
    follows.  Closed under [if_], its statements are spliced into the
    [If]'s [or_else], which the generator renders node by node at the
    [if]'s own indentation with no [else:] line, so they read as code
    after the [if]; closed under [while_] or [try_] they go to the
    [or_else] as well but render indented under an [else:] line.  This
    holds from any builder state, for any statement lists (an empty one
    filled with [pass]) and at any depth. *)
Theorem else_block_rendering : forall t xs ys r stk u d,
  forallb wf_node xs = true -> forallb wf_node ys = true ->
  (run_script (SWith (if_ t) (app (map SAdd xs) [SWith else_ (map SAdd ys)])) (mk_builder r stk)
   = Some (append_current (mk_builder r stk) (If (Some t) (pass_fill xs) (pass_fill ys)))
   /\ gen_node (If (Some t) (pass_fill xs) (pass_fill ys)) (mk_gen u (Z.of_nat d))
      = (join_nl ((repeat_str u d ++ "if " ++ gen_expr t ++ ":")
                  :: app (block_lines u (S d) (pass_fill xs)) (block_lines u d (pass_fill ys))),
         mk_gen u (Z.of_nat d)))
  /\ (run_script (SWith (while_ t) (app (map SAdd xs) [SWith else_ (map SAdd ys)])) (mk_builder r stk)
      = Some (append_current (mk_builder r stk) (While (Some t) (pass_fill xs) (pass_fill ys)))
      /\ gen_node (While (Some t) (pass_fill xs) (pass_fill ys)) (mk_gen u (Z.of_nat d))
         = (join_nl ((repeat_str u d ++ "while " ++ gen_expr t ++ ":")
                     :: app (block_lines u (S d) (pass_fill xs))
                          ((repeat_str u d ++ "else:") :: block_lines u (S d) (pass_fill ys))),
            mk_gen u (Z.of_nat d)))
  /\ (run_script (SWith try_ (app (map SAdd xs) [SWith else_ (map SAdd ys)])) (mk_builder r stk)
      = Some (append_current (mk_builder r stk) (Try (pass_fill xs) [] (pass_fill ys) []))
      /\ gen_node (Try (pass_fill xs) [] (pass_fill ys) []) (mk_gen u (Z.of_nat d))
         = (join_nl ((repeat_str u d ++ "try:")
                     :: app (block_lines u (S d) (pass_fill xs))
                          ((repeat_str u d ++ "else:") :: block_lines u (S d) (pass_fill ys))),
            mk_gen u (Z.of_nat d))).
Proof.
  intros t xs ys r stk u d Hx Hy.
  destruct (pass_fill_wf xs Hx) as [Hx1 Hx2], (pass_fill_wf ys Hy) as [Hy1 Hy2].
  split; [|split]; split.
  - run_blocks. destruct xs, ys; reflexivity.
  - render_layout (If (Some t) (pass_fill xs) (pass_fill ys)).
    f_equal. cbn [spec_layout]. rewrite lines_cons, lines_app, lines_shift.
    cbn [fst snd safe_expr]. rewrite Nat.add_0_r. reflexivity.
  - run_blocks. destruct xs, ys; reflexivity.
  - render_layout (While (Some t) (pass_fill xs) (pass_fill ys)).
    f_equal. cbn [spec_layout].
    destruct (pass_fill ys) as [|y ys'] eqn:Ey; [destruct (pass_fill_ne ys Ey)|].
    rewrite lines_cons, lines_app, lines_shift, lines_cons, lines_shift.
    cbn [fst snd safe_expr]. rewrite Nat.add_0_r. reflexivity.
  - run_blocks. destruct xs, ys; reflexivity.
  - render_layout (Try (pass_fill xs) [] (pass_fill ys) []).
    f_equal. cbn [spec_layout].
    destruct (pass_fill ys) as [|y ys'] eqn:Ey; [destruct (pass_fill_ne ys Ey)|].
    cbn [map concat app]. rewrite app_nil_r.
    rewrite lines_cons, lines_app, lines_shift, lines_cons, lines_shift.
    cbn [fst snd]. rewrite Nat.add_0_r. reflexivity.
Qed.

Lemma else_block_rendering_witness :
  forallb wf_node [Break; Continue] = true /\ forallb wf_node [Pass; Break] = true
  /\ run_script (SWith (if_ (Name "x"))
                   (app (map SAdd [Break; Continue]) [SWith else_ (map SAdd [Pass; Break])]))
       (mk_builder [Pass] [While (Some (Name "y")) [Continue] []])
     = Some (mk_builder [Pass]
               [While (Some (Name "y"))
                  [Continue; If (Some (Name "x")) [Break; Continue] [Pass; Break]] []])
  /\ gen_node (If (Some (Name "x")) [Break; Continue] [Pass; Break]) (mk_gen tab (Z.of_nat 1))
     = (String.concat nl [tab ++ "if x:"; tab ++ tab ++ "break"; tab ++ tab ++ "continue";
                          tab ++ "pass"; tab ++ "break"], mk_gen tab (Z.of_nat 1)).
Proof.
  destruct (proj1 (else_block_rendering (Name "x") [Break; Continue] [Pass; Break] [Pass]
                     [While (Some (Name "y")) [Continue] []] tab 1 eq_refl eq_refl)) as [H1 H2].
  cbn [pass_fill] in H1, H2.
  split; [reflexivity | split; [reflexivity | split]].
  - rewrite H1. reflexivity.
  - rewrite H2. reflexivity.
Defined.

(** X8: an [elif_] block closed under a loop is neither an error nor
    dropped.  Under [for_] (not one of [If], [While], [Try]) the [Elif]
    node is appended to the loop's body as an ordinary statement; under
    [while_] it becomes the loop's [or_else], which renders as an [else:]
    line at the loop's indentation with the [elif] header one level deeper
    and its body two levels deeper. *)
Theorem elif_under_loop : forall t i t2 xs ys r stk,
  run_script (SWith (for_ t i) (app (map SAdd xs) [SWith (elif_ t2) (map SAdd ys)]))
    (mk_builder r stk)
  = Some (append_current (mk_builder r stk)
            (For (Some t) (Some i) (app xs [Elif (Some t2) (pass_fill ys)]) []))
  /\ run_script (SWith (while_ t) (app (map SAdd xs) [SWith (elif_ t2) (map SAdd ys)]))
       (mk_builder r stk)
     = Some (append_current (mk_builder r stk)
               (While (Some t) (pass_fill xs) [Elif (Some t2) (pass_fill ys)]))
  /\ (forall u d, forallb wf_node xs = true -> forallb wf_node ys = true ->
        gen_node (While (Some t) (pass_fill xs) [Elif (Some t2) (pass_fill ys)])
          (mk_gen u (Z.of_nat d))
        = (join_nl ((repeat_str u d ++ "while " ++ gen_expr t ++ ":")
                    :: app (block_lines u (S d) (pass_fill xs))
                         ((repeat_str u d ++ "else:")
                          :: (repeat_str u (S d) ++ "elif " ++ gen_expr t2 ++ ":")
                          :: block_lines u (S (S d)) (pass_fill ys))),
           mk_gen u (Z.of_nat d))).
Proof.
  intros t i t2 xs ys r stk.
  split; [|split].
  - run_blocks. destruct xs, ys; reflexivity.
  - run_blocks. destruct xs, ys; reflexivity.
  - intros u d Hx Hy.
    destruct (pass_fill_wf xs Hx) as [Hx1 Hx2], (pass_fill_wf ys Hy) as [Hy1 Hy2].
    render_layout (While (Some t) (pass_fill xs) [Elif (Some t2) (pass_fill ys)]).
    f_equal. cbn [spec_layout map concat]. rewrite app_nil_r.
    unfold block_lines.
    repeat first [rewrite lines_cons | rewrite lines_app | rewrite lines_shift].
    cbn [fst snd safe_expr]. rewrite !Nat.add_0_r. reflexivity.
Qed.

Lemma elif_under_loop_witness :
  forallb wf_node [Break] = true /\ forallb wf_node [Pass; Continue] = true
  /\ gen_node (While (Some (Name "x")) [Break] [Elif (Some (Name "y")) [Pass; Continue]])
       (mk_gen tab (Z.of_nat 1))
     = (String.concat nl [tab ++ "while x:"; tab ++ tab ++ "break"; tab ++ "else:";
                          tab ++ tab ++ "elif y:"; tab ++ tab ++ tab ++ "pass";
                          tab ++ tab ++ tab ++ "continue"], mk_gen tab (Z.of_nat 1)).
Proof.
  split; [reflexivity | split; [reflexivity|]].
  pose proof (proj2 (proj2 (elif_under_loop (Name "x") (Name "i") (Name "y") [Break]
                              [Pass; Continue] [] [])) tab 1 eq_refl eq_refl) as H.
  cbn [pass_fill] in H. rewrite H. reflexivity.
Defined.

(** X9: an [except_] block with a name but no exception type, closed
    with a [Try] on top of the stack, is appended to the [Try]'s handlers
    whatever the builder state, and renders at any depth with the header
    [except], two spaces, the name and [:] ([type_str] is [" " + name] and
    the header adds another space before it), the body one level deeper. *)
Theorem except_name_without_type : forall nm xs r bd h o f stk,
  nm <> "" ->
  run_script (SWith (except_ None (Some nm)) (map SAdd xs)) (mk_builder r (Try bd h o f :: stk))
  = Some (mk_builder r (Try bd (app h [ExceptHandler None (Some nm) (pass_fill xs)]) o f :: stk))
  /\ (forall u d, forallb wf_node xs = true ->
        gen_node (ExceptHandler None (Some nm) (pass_fill xs)) (mk_gen u (Z.of_nat d))
        = (join_nl ((repeat_str u d ++ "except  " ++ nm ++ ":")
                    :: block_lines u (S d) (pass_fill xs)),
           mk_gen u (Z.of_nat d))).
Proof.
  intros nm xs r bd h o f stk Hn. split.
  - run_blocks. destruct xs; reflexivity.
  - intros u d Hx.
    destruct (pass_fill_wf xs Hx) as [Hx1 Hx2].
    render_layout (ExceptHandler None (Some nm) (pass_fill xs)).
    f_equal. cbn [spec_layout]. unfold block_lines.
    rewrite lines_cons, lines_shift. cbn [fst snd]. rewrite Nat.add_0_r.
    unfold except_line, truthy_str. rewrite (proj2 (String.eqb_neq nm "") Hn). cbn.
    reflexivity.
Qed.

Lemma except_name_without_type_witness :
  "e" <> ""
  /\ run_script (SWith (except_ None (Some "e")) (map SAdd [Pass; Break]))
       (mk_builder [] [Try [Continue] [ExceptHandler (Some (Name "E")) None [Pass]] [] []])
     = Some (mk_builder [] [Try [Continue] [ExceptHandler (Some (Name "E")) None [Pass];
                                          ExceptHandler None (Some "e") [Pass; Break]] [] []])
  /\ gen_node (ExceptHandler None (Some "e") [Pass; Break]) (mk_gen tab (Z.of_nat 1))
     = (String.concat nl [tab ++ "except  e:"; tab ++ tab ++ "pass"; tab ++ tab ++ "break"],
        mk_gen tab (Z.of_nat 1)).
Proof.
  destruct (except_name_without_type "e" [Pass; Break] []
              [Continue] [ExceptHandler (Some (Name "E")) None [Pass]] [] [] []
              ltac:(discriminate)) as [H1 H2].
  pose proof (H2 tab 1 eq_refl) as H3. cbn [pass_fill] in H1, H3.
  split; [discriminate | split].
  - rewrite H1. reflexivity.
  - rewrite H3. reflexivity.
Defined.
